(** * Weighted test evaluator: a shallow embedding of [evaluation.cpp]

    The development follows the source file top to bottom: the machine
    integers of the platform, the vectors, the sample candidate
    [solution_func], the oracle [reference_solution] and the grading routine
    [evaluate].  Loops are modelled as they are written, with an
    [unsigned int] counter compared against the vector's size. *)

From Stdlib Require Import ZArith List Lia Bool Ascii Permutation.
From Stdlib Require String DecimalString.
Import ListNotations.
Import String.StringSyntax.
Delimit Scope string_scope with string.
Local Open Scope Z_scope.

(** ** Machine integers

    [int] and [unsigned int] are 32 bits wide.  A value of either type is a
    [Z]; the wrap-around of each operation is written out.  Signed overflow
    is given the two's-complement meaning the platform has. *)

Module CppInt.

Definition width : Z := 32.
Definition modulus : Z := 2 ^ width.
Definition INT_MIN : Z := - 2 ^ (width - 1).
Definition INT_MAX : Z := 2 ^ (width - 1) - 1.
Definition UINT_MAX : Z := modulus - 1.

(** Reduction of a mathematical integer to the [int] that represents it. *)
Definition wrap_int (z : Z) : Z := (z - INT_MIN) mod modulus + INT_MIN.

(** Reduction to [unsigned int]. *)
Definition wrap_uint (z : Z) : Z := z mod modulus.

Definition add_int (a b : Z) : Z := wrap_int (a + b).
Definition mul_int (a b : Z) : Z := wrap_int (a * b).

(** [i++] on an [unsigned int]. *)
Definition incr_uint (i : Z) : Z := wrap_uint (i + 1).

(** The [int] a comparison yields: 1 for true, 0 for false. *)
Definition int_of_bool (b : bool) : Z := if b then 1 else 0.

Definition in_int (z : Z) : Prop := INT_MIN <= z <= INT_MAX.

End CppInt.

Import CppInt.

(** ** Vectors

    A [std::vector<T>] is a [list T]; [size()] is the length as an unbounded
    integer ([size_t] is wider than [unsigned int]), [v[i]] is a lookup that
    has no defined result out of range, and [push_back] appends. *)

Definition size {A : Type} (v : list A) : Z := Z.of_nat (length v).

Definition at_index {A : Type} (v : list A) (i : Z) : option A :=
  nth_error v (Z.to_nat i).

Definition push_back {A : Type} (v : list A) (x : A) : list A := v ++ [x].

(** [std::vector<int> v(n, x)]. *)
Definition filled (n : Z) (x : Z) : list Z := repeat x (Z.to_nat n).

(** ** The candidate's submission *)

(** A candidate is a C++ function [int f(std::vector<int>)].  It receives its
    vector by value, may keep state of its own between invocations (statics,
    globals) and may fail to return; [None] stands for an invocation that
    yields no value. *)
Definition candidate (St : Type) : Type := list Z -> St -> option (Z * St).

(** [solution_func]: the sample submission, [return 0;]. *)
Definition solution_func : candidate unit := fun _ s => Some (0, s).

(** ** The oracle *)

(** The loop of [reference_solution], started at counter [i] with partial
    sum [sum].  Each unit of [fuel] pays for one test of the loop condition. *)
Fixpoint sum_loop (fuel : nat) (input_vector : list Z) (i sum : Z) : option Z :=
  match fuel with
  | O => None
  | S fuel' =>
      if i <? size input_vector then
        match at_index input_vector i with
        | Some x => sum_loop fuel' input_vector (incr_uint i) (add_int sum x)
        | None => None
        end
      else Some sum
  end.

(** [reference_solution].  The loop condition is tested [size + 1] times when
    the loop is left at all (see [sum_loop_returns] and [sum_loop_spins]), so
    that much fuel decides the call; [None] is a call that does not return. *)
Definition reference_solution (input_vector : list Z) : option Z :=
  sum_loop (S (length input_vector)) input_vector 0 0.

(** The oracle passed as a candidate, as in [evaluate(reference_solution)]. *)
Definition reference_candidate : candidate unit :=
  fun v s => option_map (fun r => (r, s)) (reference_solution v).

(** ** The evaluation function *)

(** The three test vectors and their values, built as [evaluate] builds
    them. *)
Definition short_test_vector : list Z := [1; 2; 3; 4; 5; -6; -7].

Definition large_test_vector : list Z :=
  push_back (filled 100000 7) (-7654321).

Definition test_vectors : list (list Z) :=
  push_back (push_back (push_back [] []) short_test_vector) large_test_vector.

Definition test_values : list Z :=
  push_back (push_back (push_back [] 10) 30) 60.

Section Evaluate.

Context {St : Type}.
Variable candidate_solution : candidate St.

(** The scoring loop, started at counter [i] with the two running totals and
    the candidate's state [s].  The two operands of [==] are both evaluated;
    the oracle touches no state, so their order does not show. *)
Fixpoint evaluate_loop (fuel : nat) (vectors : list (list Z)) (values : list Z)
    (i candidate_score max_score : Z) (s : St) : option ((Z * Z) * St) :=
  match fuel with
  | O => None
  | S fuel' =>
      if i <? size vectors then
        match at_index vectors i, at_index values i with
        | Some test_vector, Some test_value =>
            match candidate_solution test_vector s, reference_solution test_vector with
            | Some (out, s'), Some expected =>
                let pass := int_of_bool (out =? expected) in
                evaluate_loop fuel' vectors values (incr_uint i)
                  (add_int candidate_score (mul_int pass test_value))
                  (add_int max_score test_value) s'
            | _, _ => None
            end
        | _, _ => None
        end
      else Some ((candidate_score, max_score), s)
  end.

(** [evaluate]: the pair [(candidate_score, max_score)], together with the
    state the candidate is left in. *)
Definition evaluate (s : St) : option ((Z * Z) * St) :=
  evaluate_loop (S (length test_vectors)) test_vectors test_values 0 0 0 s.

(** The candidate invoked once on each input of a list, first to last, each
    invocation starting from the state the previous one left: the outputs in
    order and the final state. *)
Fixpoint candidate_runs (inputs : list (list Z)) (s : St) : option (list Z * St) :=
  match inputs with
  | [] => Some ([], s)
  | v :: inputs' =>
      match candidate_solution v s with
      | Some (out, s1) =>
          match candidate_runs inputs' s1 with
          | Some (outs, s2) => Some (out :: outs, s2)
          | None => None
          end
      | None => None
      end
  end.

(** The scoring loop read as a pass over the list of (input, weight) cases. *)
Fixpoint score_cases (cases : list (list Z * Z)) (candidate_score max_score : Z)
    (s : St) : option ((Z * Z) * St) :=
  match cases with
  | [] => Some ((candidate_score, max_score), s)
  | (test_vector, test_value) :: cases' =>
      match candidate_solution test_vector s, reference_solution test_vector with
      | Some (out, s'), Some expected =>
          score_cases cases'
            (add_int candidate_score (mul_int (int_of_bool (out =? expected)) test_value))
            (add_int max_score test_value) s'
      | _, _ => None
      end
  end.

(** A candidate whose returned value (and whether it returns) depends on its
    argument only, not on the state it finds. *)
Definition output_stateless : Prop :=
  forall (v : list Z) (s s' : St),
    option_map fst (candidate_solution v s) = option_map fst (candidate_solution v s').

(** Two successive calls of [evaluate], the second starting in the state the
    first one left the candidate in, return the same pair. *)
Definition successive_calls_agree (s0 : St) : Prop :=
  forall (p1 p2 : Z * Z) (s1 s2 : St),
    evaluate s0 = Some (p1, s1) ->
    evaluate s1 = Some (p2, s2) ->
    p1 = p2.

(** The candidate with a log of its invocations: each invocation appends the
    vector it was given. *)
Definition traced : candidate (St * list (list Z)) :=
  fun v sl =>
    match candidate_solution v (fst sl) with
    | Some (out, s') => Some (out, (s', push_back (snd sl) v))
    | None => None
    end.

End Evaluate.

(** ** Vocabulary of the specification *)

(** The sum the oracle is meant to compute: wrapping addition folded over
    the sequence from 0. *)
Definition wrapping_sum (l : list Z) : Z := fold_left add_int l 0.

(** The weights of exactly those cases whose candidate output equals the
    oracle's output. *)
Fixpoint matching_weights (outs expected weights : list Z) : list Z :=
  match outs, expected, weights with
  | out :: outs', e :: expected', w :: weights' =>
      if out =? e then w :: matching_weights outs' expected' weights'
      else matching_weights outs' expected' weights'
  | _, _, _ => []
  end.

(** Whether an answer [out] on input [v] equals what the oracle returns on
    [v]. *)
Definition answer_matches (out : Z) (v : list Z) : bool :=
  match reference_solution v with
  | Some expected => out =? expected
  | None => false
  end.

(** The sum of a list of weights, as a mathematical integer. *)
Definition total (weights : list Z) : Z := fold_right Z.add 0 weights.

(** ** Particular candidates and inputs *)

(** [static int calls = 0; return calls++;]: a candidate that answers with
    the number of times it was invoked before. *)
Definition counting_candidate : candidate Z := fun _ calls => Some (calls, calls + 1).

(** A candidate that counts its invocations but always answers 0. *)
Definition metered_zero : candidate Z := fun _ calls => Some (0, calls + 1).

(** [std::vector<int>(4294967296, 0)]: one element more than an
    [unsigned int] counter can index. *)
Definition overlong_vector : list Z := filled (UINT_MAX + 1) 0.

(** [return c;]: a candidate that answers [c] on every input. *)
Definition constant_candidate (c : Z) : candidate unit := fun _ s => Some (c, s).

(** A candidate that never returns. *)
Definition stuck_candidate : candidate unit := fun _ _ => None.

(** A candidate that answers 1 on the one-element vector [42] and 0 on
    every other input. *)
Definition picky_candidate : candidate unit :=
  fun v s => Some (match v with [42] => 1 | _ => 0 end, s).

(** Which of the test cases a list of candidate outputs passes, in the order
    of the test vectors. *)
Definition passes (outs : list Z) : list bool :=
  map (fun p => answer_matches (fst p) (snd p)) (combine outs test_vectors).

(** ** The platform's entry point *)

(** What [operator<<] writes for an [int]: its decimal numeral, with a
    leading minus sign when negative. *)
Definition print_int (z : Z) : String.string :=
  DecimalString.NilZero.string_of_int (Z.to_int z).

(** What [std::endl] writes: a line feed. *)
Definition endl : String.string := String.String "010"%char String.EmptyString.

(** The first line [main] writes, before it calls [evaluate]. *)
Definition banner : String.string :=
  String.append "Evaluating candidate's solution function..."%string endl.

(** The body of [main], for whichever submission [solution_func] names: the
    text written to [std::cout], and the exit status with the state the
    submission is left in when [main] returns at all. *)
Definition platform_main {St : Type} (submission : candidate St) (s : St)
    : String.string * option (Z * St) :=
  match evaluate submission s with
  | Some (score, s') =>
      (String.append banner
         (String.append "Candidate's score: "%string
            (String.append (print_int (fst score))
               (String.append "/"%string
                  (String.append (print_int (snd score)) endl)))),
       Some (0, s'))
  | None => (banner, None)
  end.

(** [main], linked with the sample submission. *)
Definition main : String.string * option (Z * unit) :=
  platform_main solution_func tt.

(** ** Facts about the machine integers *)

Module CppIntFacts.

Lemma modulus_val : modulus = 4294967296.
Proof. reflexivity. Qed.

Lemma INT_MIN_val : INT_MIN = -2147483648.
Proof. reflexivity. Qed.

Lemma INT_MAX_val : INT_MAX = 2147483647.
Proof. reflexivity. Qed.

Lemma UINT_MAX_val : UINT_MAX = 4294967295.
Proof. reflexivity. Qed.

Lemma wrap_int_range (z : Z) : in_int (wrap_int z).
Proof.
  unfold in_int, wrap_int. rewrite modulus_val, INT_MIN_val, INT_MAX_val.
  pose proof (Z.mod_pos_bound (z - -2147483648) 4294967296). lia.
Qed.

Lemma wrap_int_small (z : Z) : in_int z -> wrap_int z = z.
Proof.
  unfold in_int, wrap_int. rewrite modulus_val, INT_MIN_val, INT_MAX_val.
  intros H. rewrite Z.mod_small; lia.
Qed.

Lemma wrap_uint_small (z : Z) : 0 <= z <= UINT_MAX -> wrap_uint z = z.
Proof.
  unfold wrap_uint. rewrite UINT_MAX_val, modulus_val.
  intros H. apply Z.mod_small. lia.
Qed.

Lemma wrap_uint_range (z : Z) : 0 <= wrap_uint z <= UINT_MAX.
Proof.
  unfold wrap_uint. rewrite UINT_MAX_val, modulus_val.
  pose proof (Z.mod_pos_bound z 4294967296). lia.
Qed.

Lemma incr_uint_below (i : Z) : 0 <= i < UINT_MAX -> incr_uint i = i + 1.
Proof. intros H. apply wrap_uint_small. lia. Qed.

(** The counter of a loop never reaches a size above [UINT_MAX]: the
    increment at [UINT_MAX] starts over at 0. *)
Lemma incr_uint_at_max : incr_uint UINT_MAX = 0.
Proof. reflexivity. Qed.

Lemma add_int_small (a b : Z) : in_int (a + b) -> add_int a b = a + b.
Proof. apply wrap_int_small. Qed.

End CppIntFacts.

Import CppIntFacts.

(** ** Facts about vectors *)

Lemma size_nonneg {A : Type} (v : list A) : 0 <= size v.
Proof. unfold size. lia. Qed.

Lemma size_app {A : Type} (l1 l2 : list A) : size (l1 ++ l2) = size l1 + size l2.
Proof. unfold size. rewrite length_app. lia. Qed.

Lemma size_cons {A : Type} (x : A) (l : list A) : size (x :: l) = 1 + size l.
Proof. unfold size. cbn [length]. lia. Qed.

Lemma size_filled (n x : Z) : 0 <= n -> size (filled n x) = n.
Proof. intros H. unfold size, filled. rewrite repeat_length. apply Z2Nat.id, H. Qed.

Lemma at_index_middle {A : Type} (pre : list A) (x : A) (rest : list A) :
  at_index (pre ++ x :: rest) (size pre) = Some x.
Proof.
  unfold at_index, size. rewrite Nat2Z.id.
  rewrite nth_error_app2 by lia. now rewrite Nat.sub_diag.
Qed.

Lemma snoc_app {A : Type} (pre : list A) (x : A) (rest : list A) :
  pre ++ x :: rest = (pre ++ [x]) ++ rest.
Proof. rewrite <- app_assoc. reflexivity. Qed.

(** ** The loop of the oracle *)

(** The loop run on the part of the vector that is still ahead. *)
Lemma sum_loop_suffix (rest pre : list Z) (sum : Z) (fuel : nat) :
  size (pre ++ rest) <= UINT_MAX ->
  (length rest < fuel)%nat ->
  sum_loop fuel (pre ++ rest) (size pre) sum = Some (fold_left add_int rest sum).
Proof.
  revert pre sum fuel.
  induction rest as [|x rest IH]; intros pre sum fuel Hmax Hfuel.
  - destruct fuel as [|fuel]; [inversion Hfuel|].
    cbn [sum_loop fold_left]. rewrite app_nil_r, Z.ltb_irrefl. reflexivity.
  - destruct fuel as [|fuel]; [inversion Hfuel|].
    cbn [sum_loop fold_left].
    rewrite size_app, size_cons in Hmax.
    pose proof (size_nonneg rest) as Hrest.
    pose proof (size_nonneg pre) as Hpre.
    replace (size pre <? size (pre ++ x :: rest)) with true
      by (symmetry; apply Z.ltb_lt; rewrite size_app, size_cons; lia).
    rewrite at_index_middle.
    rewrite incr_uint_below by lia.
    replace (size pre + 1) with (size (pre ++ [x]))
      by (rewrite size_app; reflexivity).
    rewrite snoc_app.
    apply IH.
    + rewrite !size_app. change (size [x]) with 1. lia.
    + cbn [length] in Hfuel. lia.
Qed.

(** Enough fuel gives the result: on a vector of at most [UINT_MAX]
    elements the loop is left with the wrapping sum. *)
Lemma sum_loop_returns (v : list Z) (fuel : nat) :
  size v <= UINT_MAX ->
  (length v < fuel)%nat ->
  sum_loop fuel v 0 0 = Some (wrapping_sum v).
Proof.
  intros Hmax Hfuel.
  apply (sum_loop_suffix v [] 0 fuel); assumption.
Qed.

(** On a longer vector the counter wraps to 0 before it reaches the size:
    no amount of fuel leaves the loop. *)
Lemma sum_loop_spins (v : list Z) :
  UINT_MAX < size v ->
  forall (fuel : nat) (i sum : Z),
    0 <= i <= UINT_MAX -> sum_loop fuel v i sum = None.
Proof.
  intros Hlong fuel. induction fuel as [|fuel IH]; intros i sum Hi.
  - reflexivity.
  - cbn [sum_loop].
    replace (i <? size v) with true by (symmetry; apply Z.ltb_lt; lia).
    destruct (at_index v i); [|reflexivity].
    apply IH. apply wrap_uint_range.
Qed.

Lemma reference_solution_short (v : list Z) :
  size v <= UINT_MAX -> reference_solution v = Some (wrapping_sum v).
Proof.
  intros H. unfold reference_solution. apply sum_loop_returns; [assumption|lia].
Qed.

Lemma reference_solution_long (v : list Z) :
  UINT_MAX < size v -> reference_solution v = None.
Proof.
  intros H. unfold reference_solution.
  apply sum_loop_spins; [assumption|]. rewrite UINT_MAX_val. lia.
Qed.

(** Whenever the oracle returns, it returns the wrapping sum. *)
Lemma reference_solution_sound (v : list Z) (r : Z) :
  reference_solution v = Some r -> r = wrapping_sum v.
Proof.
  intros H. destruct (Z_le_gt_dec (size v) UINT_MAX) as [Hs|Hl].
  - rewrite reference_solution_short in H by assumption. congruence.
  - rewrite reference_solution_long in H by lia. discriminate.
Qed.

(** ** The oracle on the three test vectors *)

Lemma size_large_test_vector : size large_test_vector = 100001.
Proof.
  unfold large_test_vector, push_back.
  rewrite size_app, size_filled by lia. reflexivity.
Qed.

Lemma reference_empty : reference_solution [] = Some 0.
Proof. reflexivity. Qed.

Lemma reference_short : reference_solution short_test_vector = Some 2.
Proof. vm_compute. reflexivity. Qed.

Lemma reference_large : reference_solution large_test_vector = Some (-6954321).
Proof.
  rewrite reference_solution_short.
  - vm_compute. reflexivity.
  - rewrite size_large_test_vector, UINT_MAX_val. lia.
Qed.

(** ** The scoring loop *)

Section EvaluateFacts.

Context {St : Type}.
Variable cand : candidate St.

(** The counter loop over the two parallel tables does what a pass over the
    list of cases does, from any position on. *)
Lemma evaluate_loop_suffix (rest_v : list (list Z)) :
  forall (rest_w : list Z) (pre_v : list (list Z)) (pre_w : list Z)
         (score mx : Z) (s : St) (fuel : nat),
    length pre_v = length pre_w ->
    length rest_v = length rest_w ->
    size (pre_v ++ rest_v) <= UINT_MAX ->
    (length rest_v < fuel)%nat ->
    evaluate_loop cand fuel (pre_v ++ rest_v) (pre_w ++ rest_w) (size pre_v) score mx s
    = score_cases cand (combine rest_v rest_w) score mx s.
Proof.
  induction rest_v as [|v rest_v IH];
    intros rest_w pre_v pre_w score mx s fuel Hpre Hrest Hmax Hfuel;
    (destruct fuel as [|fuel]; [inversion Hfuel|]).
  - cbn [evaluate_loop combine score_cases].
    rewrite app_nil_r, Z.ltb_irrefl. reflexivity.
  - destruct rest_w as [|w rest_w]; [discriminate Hrest|].
    cbn [evaluate_loop combine score_cases].
    pose proof (size_nonneg rest_v) as Hnn.
    pose proof (size_nonneg pre_v) as Hnn'.
    assert (Hbound : size pre_v + 1 + size rest_v <= UINT_MAX)
      by (rewrite size_app, size_cons in Hmax; lia).
    replace (size pre_v <? size (pre_v ++ v :: rest_v)) with true
      by (symmetry; apply Z.ltb_lt; rewrite size_app, size_cons; lia).
    rewrite at_index_middle.
    assert (Hw : at_index (pre_w ++ w :: rest_w) (size pre_v) = Some w).
    { replace (size pre_v) with (size pre_w) by (unfold size; now rewrite Hpre).
      apply at_index_middle. }
    rewrite Hw.
    destruct (cand v s) as [[out s']|]; [|reflexivity].
    destruct (reference_solution v) as [expected|]; [|reflexivity].
    rewrite incr_uint_below by lia.
    replace (size pre_v + 1) with (size (pre_v ++ [v]))
      by (rewrite size_app; reflexivity).
    rewrite (snoc_app pre_v), (snoc_app pre_w).
    apply IH.
    + rewrite !length_app. cbn [length]. lia.
    + cbn [length] in Hrest. lia.
    + rewrite !size_app. change (size [v]) with 1. lia.
    + cbn [length] in Hfuel. lia.
Qed.

Lemma test_vectors_eq :
  test_vectors = [[]; short_test_vector; large_test_vector].
Proof. reflexivity. Qed.

Lemma test_values_eq : test_values = [10; 30; 60].
Proof. reflexivity. Qed.

(** [evaluate] is the pass over its three cases. *)
Lemma evaluate_as_cases (s : St) :
  evaluate cand s
  = score_cases cand [([], 10); (short_test_vector, 30); (large_test_vector, 60)] 0 0 s.
Proof.
  unfold evaluate. rewrite test_vectors_eq, test_values_eq.
  apply (evaluate_loop_suffix
           [[]; short_test_vector; large_test_vector] [10; 30; 60] [] []).
  - reflexivity.
  - reflexivity.
  - rewrite UINT_MAX_val. unfold size. cbn [app length]. lia.
  - cbn [length]. lia.
Qed.

(** The two running totals after the three cases, without the wrap-around:
    none of the sums leaves the range of [int]. *)
Lemma totals_after_three (b1 b2 b3 : bool) :
  add_int (add_int (add_int 0 (mul_int (int_of_bool b1) 10))
                   (mul_int (int_of_bool b2) 30))
          (mul_int (int_of_bool b3) 60)
  = (if b1 then 10 else 0) + (if b2 then 30 else 0) + (if b3 then 60 else 0)
  /\ add_int (add_int (add_int 0 10) 30) 60 = 100.
Proof. destruct b1, b2, b3; split; reflexivity. Qed.

(** What [evaluate] returns when the candidate returns on its three
    invocations. *)
Lemma evaluate_three (s s1 s2 s3 : St) (o1 o2 o3 : Z) :
  cand [] s = Some (o1, s1) ->
  cand short_test_vector s1 = Some (o2, s2) ->
  cand large_test_vector s2 = Some (o3, s3) ->
  evaluate cand s
  = Some (((if o1 =? 0 then 10 else 0) + (if o2 =? 2 then 30 else 0)
           + (if o3 =? -6954321 then 60 else 0), 100), s3).
Proof.
  intros H1 H2 H3. rewrite evaluate_as_cases.
  cbn [score_cases].
  rewrite H1, reference_empty, H2, reference_short, H3, reference_large.
  destruct (totals_after_three (o1 =? 0) (o2 =? 2) (o3 =? -6954321)) as [Hs Hm].
  rewrite Hs, Hm. reflexivity.
Qed.

(** The three invocations behind a run over the test vectors. *)
Lemma candidate_runs_three (s s' : St) (outs : list Z) :
  candidate_runs cand test_vectors s = Some (outs, s') ->
  exists (o1 o2 o3 : Z) (s1 s2 : St),
    outs = [o1; o2; o3]
    /\ cand [] s = Some (o1, s1)
    /\ cand short_test_vector s1 = Some (o2, s2)
    /\ cand large_test_vector s2 = Some (o3, s').
Proof.
  rewrite test_vectors_eq. cbn [candidate_runs]. intros H.
  destruct (cand [] s) as [[o1 s1]|] eqn:H1; [|discriminate].
  destruct (cand short_test_vector s1) as [[o2 s2]|] eqn:H2; [|discriminate].
  destruct (cand large_test_vector s2) as [[o3 s3]|] eqn:H3; [|discriminate].
  injection H as Houts Hs. subst outs s'.
  exists o1, o2, o3, s1, s2. repeat split; assumption.
Qed.

Lemma candidate_runs_of_three (s s1 s2 s3 : St) (o1 o2 o3 : Z) :
  cand [] s = Some (o1, s1) ->
  cand short_test_vector s1 = Some (o2, s2) ->
  cand large_test_vector s2 = Some (o3, s3) ->
  candidate_runs cand test_vectors s = Some ([o1; o2; o3], s3).
Proof.
  intros H1 H2 H3. rewrite test_vectors_eq. cbn [candidate_runs].
  rewrite H1, H2, H3. reflexivity.
Qed.

(** [evaluate] returns exactly when the candidate returns on its three
    invocations, and leaves the candidate in the state they lead to. *)
Lemma evaluate_of_runs (s s' : St) (outs : list Z) :
  candidate_runs cand test_vectors s = Some (outs, s') ->
  exists o1 o2 o3 : Z,
    outs = [o1; o2; o3]
    /\ evaluate cand s
       = Some (((if o1 =? 0 then 10 else 0) + (if o2 =? 2 then 30 else 0)
                + (if o3 =? -6954321 then 60 else 0), 100), s').
Proof.
  intros H. destruct (candidate_runs_three _ _ _ H)
    as (o1 & o2 & o3 & s1 & s2 & Houts & H1 & H2 & H3).
  exists o1, o2, o3. split; [assumption|].
  apply (evaluate_three s s1 s2 s' o1 o2 o3); assumption.
Qed.

End EvaluateFacts.

Lemma oracle_on_test_vectors :
  map reference_solution test_vectors = map Some [0; 2; -6954321].
Proof.
  rewrite test_vectors_eq. cbn [map].
  rewrite reference_empty, reference_short, reference_large. reflexivity.
Qed.

(** When an invocation of the candidate yields no value, neither does
    [evaluate]. *)
Lemma evaluate_none_of_runs {St : Type} (cand : candidate St) (s : St) :
  candidate_runs cand test_vectors s = None -> evaluate cand s = None.
Proof.
  rewrite evaluate_as_cases, test_vectors_eq. cbn [candidate_runs score_cases].
  rewrite reference_empty, reference_short, reference_large.
  destruct (cand [] s) as [[o1 s1]|]; [|reflexivity].
  destruct (cand short_test_vector s1) as [[o2 s2]|]; [|reflexivity].
  destruct (cand large_test_vector s2) as [[o3 s3]|]; [|reflexivity].
  discriminate.
Qed.

(** ** The properties of the specification *)

(** C1.  For every candidate, the achieved score that [evaluate] returns is
    the sum of the weights of exactly those test cases on which the output of
    the candidate equals the output of the oracle on the same input.  The
    outputs are those of the three invocations [evaluate] makes; whenever
    they all return, [evaluate] returns. *)
Theorem evaluate_score_is_sum_of_matching_weights :
  forall (St : Type) (cand : candidate St) (s s' : St) (outs : list Z),
    candidate_runs cand test_vectors s = Some (outs, s') ->
    exists (expected : list Z) (max_score : Z),
      map reference_solution test_vectors = map Some expected
      /\ evaluate cand s
         = Some ((total (matching_weights outs expected test_values), max_score), s').
Proof.
  intros St cand s s' outs H.
  destruct (evaluate_of_runs cand s s' outs H) as (o1 & o2 & o3 & Houts & Hev).
  exists [0; 2; -6954321], 100. split; [apply oracle_on_test_vectors|].
  rewrite Hev, Houts, test_values_eq. cbn [matching_weights].
  destruct (o1 =? 0), (o2 =? 2), (o3 =? -6954321); reflexivity.
Qed.

Lemma evaluate_score_is_sum_of_matching_weights_witness :
  candidate_runs solution_func test_vectors tt = Some ([0; 0; 0], tt)
  /\ exists (expected : list Z) (max_score : Z),
      map reference_solution test_vectors = map Some expected
      /\ evaluate solution_func tt
         = Some ((total (matching_weights [0; 0; 0] expected test_values), max_score), tt).
Proof.
  split; [reflexivity|].
  apply (evaluate_score_is_sum_of_matching_weights unit solution_func tt tt [0; 0; 0]).
  reflexivity.
Defined.

(** C2.  For every candidate, the [max_score] that [evaluate] returns is the
    sum of all test-case weights, 10 + 30 + 60 = 100, whatever the candidate
    answers. *)
Theorem evaluate_max_score_is_total_weight :
  forall (St : Type) (cand : candidate St) (s s' : St) (outs : list Z),
    candidate_runs cand test_vectors s = Some (outs, s') ->
    total test_values = 100
    /\ exists score : Z, evaluate cand s = Some ((score, total test_values), s').
Proof.
  intros St cand s s' outs H.
  destruct (evaluate_of_runs cand s s' outs H) as (o1 & o2 & o3 & _ & Hev).
  split; [reflexivity|].
  rewrite Hev. eexists. reflexivity.
Qed.

Lemma evaluate_max_score_is_total_weight_witness :
  candidate_runs counting_candidate test_vectors 0 = Some ([0; 1; 2], 3)
  /\ total test_values = 100
  /\ exists score : Z,
      evaluate counting_candidate 0 = Some ((score, total test_values), 3).
Proof.
  split; [reflexivity|].
  apply (evaluate_max_score_is_total_weight Z counting_candidate 0 3 [0; 1; 2]).
  reflexivity.
Defined.

(** C4.  For every candidate, the returned pair satisfies
    [0 <= achieved_score <= max_score]. *)
Theorem evaluate_score_between_zero_and_max :
  forall (St : Type) (cand : candidate St) (s s' : St) (outs : list Z),
    candidate_runs cand test_vectors s = Some (outs, s') ->
    exists score max_score : Z,
      evaluate cand s = Some ((score, max_score), s')
      /\ 0 <= score <= max_score.
Proof.
  intros St cand s s' outs H.
  destruct (evaluate_of_runs cand s s' outs H) as (o1 & o2 & o3 & _ & Hev).
  rewrite Hev. do 2 eexists. split; [reflexivity|].
  destruct (o1 =? 0), (o2 =? 2), (o3 =? -6954321); lia.
Qed.

Lemma evaluate_score_between_zero_and_max_witness :
  candidate_runs metered_zero test_vectors 0 = Some ([0; 0; 0], 3)
  /\ exists score max_score : Z,
      evaluate metered_zero 0 = Some ((score, max_score), 3)
      /\ 0 <= score <= max_score.
Proof.
  split; [reflexivity|].
  apply (evaluate_score_between_zero_and_max Z metered_zero 0 3 [0; 0; 0]).
  reflexivity.
Defined.

(** C10.  For every candidate, the achieved score is one of the eight subset
    sums of the weights 10, 30 and 60. *)
Theorem evaluate_score_is_subset_sum :
  forall (St : Type) (cand : candidate St) (s s' : St) (outs : list Z),
    candidate_runs cand test_vectors s = Some (outs, s') ->
    exists score max_score : Z,
      evaluate cand s = Some ((score, max_score), s')
      /\ In score [0; 10; 30; 40; 60; 70; 90; 100].
Proof.
  intros St cand s s' outs H.
  destruct (evaluate_of_runs cand s s' outs H) as (o1 & o2 & o3 & _ & Hev).
  rewrite Hev. do 2 eexists. split; [reflexivity|].
  destruct (o1 =? 0), (o2 =? 2), (o3 =? -6954321); cbn; tauto.
Qed.

Lemma evaluate_score_is_subset_sum_witness :
  candidate_runs solution_func test_vectors tt = Some ([0; 0; 0], tt)
  /\ exists score max_score : Z,
      evaluate solution_func tt = Some ((score, max_score), tt)
      /\ In score [0; 10; 30; 40; 60; 70; 90; 100].
Proof.
  split; [reflexivity|].
  apply (evaluate_score_is_subset_sum unit solution_func tt tt [0; 0; 0]).
  reflexivity.
Defined.

(** C3.  The outputs of the oracle on the three fixed test inputs, the
    empty list, [1,2,3,4,5,-6,-7] and 100000 copies of 7 followed by
    -7654321, are 0, 2 and -6954321. *)
Theorem oracle_outputs_on_test_inputs :
  test_vectors
  = [[]; [1; 2; 3; 4; 5; -6; -7]; repeat 7 (Z.to_nat 100000) ++ [-7654321]]
  /\ map reference_solution test_vectors = [Some 0; Some 2; Some (-6954321)].
Proof.
  split; [reflexivity|]. apply oracle_on_test_vectors.
Qed.

(** C3, as the specification words it: the outputs are not 0, -8 and
    692345679. *)
Lemma oracle_outputs_not_as_specified :
  map reference_solution test_vectors <> [Some 0; Some (-8); Some 692345679].
Proof.
  rewrite oracle_on_test_vectors. cbn [map]. intros H. discriminate H.
Qed.

(** C5.  A candidate that agrees with the oracle on every input scores
    exactly [max_score]: [evaluate] returns (100, 100). *)
Theorem evaluate_full_score_for_oracle_equivalent :
  forall (St : Type) (cand : candidate St),
    (forall (v : list Z) (r : Z) (s : St),
        reference_solution v = Some r -> exists s' : St, cand v s = Some (r, s')) ->
    forall s : St, exists s' : St, evaluate cand s = Some ((100, 100), s').
Proof.
  intros St cand Hagree s.
  destruct (Hagree _ _ s reference_empty) as [s1 H1].
  destruct (Hagree _ _ s1 reference_short) as [s2 H2].
  destruct (Hagree _ _ s2 reference_large) as [s3 H3].
  exists s3. apply (evaluate_three cand s s1 s2 s3 _ _ _ H1 H2 H3).
Qed.

Lemma evaluate_full_score_for_oracle_equivalent_witness :
  exists s' : unit, evaluate reference_candidate tt = Some ((100, 100), s').
Proof.
  apply (evaluate_full_score_for_oracle_equivalent unit reference_candidate).
  intros v r s H. exists s. unfold reference_candidate. rewrite H. reflexivity.
Defined.

(** C6, at a vector of 4294967296 elements: the counter of the loop wraps
    to 0 before it reaches the size, so the oracle returns nothing, and in
    particular not the wrapping sum of the vector. *)
Theorem reference_solution_overlong_never_returns :
  size overlong_vector = 4294967296
  /\ (forall fuel : nat, sum_loop fuel overlong_vector 0 0 = None)
  /\ reference_solution overlong_vector <> Some (wrapping_sum overlong_vector).
Proof.
  assert (Hsize : size overlong_vector = 4294967296).
  { unfold overlong_vector. rewrite size_filled; rewrite UINT_MAX_val; lia. }
  assert (Hlong : UINT_MAX < size overlong_vector).
  { rewrite Hsize, UINT_MAX_val. lia. }
  split; [exact Hsize|]. split.
  - intros fuel. apply sum_loop_spins; [exact Hlong|].
    rewrite UINT_MAX_val. lia.
  - rewrite (reference_solution_long _ Hlong). discriminate.
Qed.

(** C7.  A candidate that returns 0 on every input scores exactly 10 out of
    a [max_score] of 100: of the three test cases only the empty one matches
    the output of the oracle. *)
Theorem evaluate_constant_zero_scores_ten :
  forall (St : Type) (cand : candidate St),
    (forall (v : list Z) (s : St), exists s' : St, cand v s = Some (0, s')) ->
    map (answer_matches 0) test_vectors = [true; false; false]
    /\ forall s : St, exists s' : St, evaluate cand s = Some ((10, 100), s').
Proof.
  intros St cand Hzero. split.
  - rewrite test_vectors_eq. unfold answer_matches. cbn [map].
    rewrite reference_empty, reference_short, reference_large. reflexivity.
  - intros s.
    destruct (Hzero [] s) as [s1 H1].
    destruct (Hzero short_test_vector s1) as [s2 H2].
    destruct (Hzero large_test_vector s2) as [s3 H3].
    exists s3. apply (evaluate_three cand s s1 s2 s3 _ _ _ H1 H2 H3).
Qed.

Lemma evaluate_constant_zero_scores_ten_witness :
  map (answer_matches 0) test_vectors = [true; false; false]
  /\ forall s : unit, exists s' : unit, evaluate solution_func s = Some ((10, 100), s').
Proof.
  apply (evaluate_constant_zero_scores_ten unit solution_func).
  intros v s. exists s. reflexivity.
Defined.

(** A candidate whose answer does not depend on its state gives the same
    answer from any state. *)
Lemma output_stateless_same_answer {St : Type} (cand : candidate St) :
  output_stateless cand ->
  forall (v : list Z) (s s' t : St) (o : Z),
    cand v s = Some (o, s') -> exists t' : St, cand v t = Some (o, t').
Proof.
  intros Hpure v s s' t o H.
  pose proof (Hpure v t s) as E. rewrite H in E.
  destruct (cand v t) as [[o' t']|]; [|discriminate E].
  cbn in E. injection E as E. subst o'. exists t'. reflexivity.
Qed.

(** C8.  [evaluate] keeps no state of its own between calls: for every
    candidate whose answer depends on its argument only, two successive
    calls of [evaluate] return identical (score, max_score) pairs. *)
Theorem evaluate_twice_same_pair :
  forall (St : Type) (cand : candidate St),
    output_stateless cand ->
    forall (s0 s1 : St) (outs : list Z),
      candidate_runs cand test_vectors s0 = Some (outs, s1) ->
      exists (p : Z * Z) (s2 : St),
        evaluate cand s0 = Some (p, s1) /\ evaluate cand s1 = Some (p, s2).
Proof.
  intros St cand Hpure s0 s1 outs H.
  destruct (candidate_runs_three cand s0 s1 outs H)
    as (o1 & o2 & o3 & t1 & t2 & _ & H1 & H2 & H3).
  destruct (output_stateless_same_answer cand Hpure _ _ _ s1 _ H1) as [u1 G1].
  destruct (output_stateless_same_answer cand Hpure _ _ _ u1 _ H2) as [u2 G2].
  destruct (output_stateless_same_answer cand Hpure _ _ _ u2 _ H3) as [u3 G3].
  eexists. exists u3. split.
  - apply (evaluate_three cand s0 t1 t2 s1 o1 o2 o3 H1 H2 H3).
  - apply (evaluate_three cand s1 u1 u2 u3 o1 o2 o3 G1 G2 G3).
Qed.

Lemma evaluate_twice_same_pair_witness :
  output_stateless metered_zero
  /\ candidate_runs metered_zero test_vectors 0 = Some ([0; 0; 0], 3)
  /\ exists (p : Z * Z) (s2 : Z),
      evaluate metered_zero 0 = Some (p, 3) /\ evaluate metered_zero 3 = Some (p, s2).
Proof.
  assert (Hpure : output_stateless metered_zero) by (intros v s s'; reflexivity).
  split; [exact Hpure|]. split; [reflexivity|].
  apply (evaluate_twice_same_pair Z metered_zero Hpure 0 3 [0; 0; 0]).
  reflexivity.
Defined.

(** C8, as the specification words it, fails for a candidate that keeps
    state: the counting candidate scores (10, 100) in a first call of
    [evaluate] and (0, 100) in the call that follows. *)
Lemma counting_candidate_scores_differ :
  evaluate counting_candidate 0 = Some ((10, 100), 3)
  /\ evaluate counting_candidate 3 = Some ((0, 100), 6)
  /\ ~ successive_calls_agree counting_candidate 0.
Proof.
  assert (E1 : evaluate counting_candidate 0 = Some ((10, 100), 3))
    by (apply (evaluate_three counting_candidate 0 1 2 3 0 1 2); reflexivity).
  assert (E2 : evaluate counting_candidate 3 = Some ((0, 100), 6))
    by (apply (evaluate_three counting_candidate 3 4 5 6 3 4 5); reflexivity).
  split; [exact E1|]. split; [exact E2|].
  intros Hagree. specialize (Hagree _ _ _ _ E1 E2). discriminate Hagree.
Qed.

(** C9.  During one call of [evaluate] the candidate is invoked exactly
    three times, once per test case and in the order of the list: on the
    empty vector, then on the vector of 7 elements, then on the vector of
    100001 elements.  The log of the traced candidate shows the invocations;
    the state the candidate is left in is the one the three invocations lead
    to in that order. *)
Theorem evaluate_invokes_candidate_once_per_case_in_order :
  forall (St : Type) (cand : candidate St) (s s' : St) (outs : list Z),
    candidate_runs cand test_vectors s = Some (outs, s') ->
    exists p : Z * Z,
      evaluate cand s = Some (p, s')
      /\ evaluate (traced cand) (s, [])
         = Some (p, (s', [[]; short_test_vector; large_test_vector]))
      /\ map size [[]; short_test_vector; large_test_vector] = [0; 7; 100001].
Proof.
  intros St cand s s' outs H.
  destruct (candidate_runs_three cand s s' outs H)
    as (o1 & o2 & o3 & s1 & s2 & _ & H1 & H2 & H3).
  eexists. split; [|split].
  - apply (evaluate_three cand s s1 s2 s' o1 o2 o3 H1 H2 H3).
  - apply (evaluate_three (traced cand) (s, [])
             (s1, [[]]) (s2, [[]; short_test_vector])
             (s', [[]; short_test_vector; large_test_vector]) o1 o2 o3);
      unfold traced; cbn [fst snd]; [rewrite H1|rewrite H2|rewrite H3]; reflexivity.
  - cbn [map]. rewrite size_large_test_vector. reflexivity.
Qed.

Lemma evaluate_invokes_candidate_once_per_case_in_order_witness :
  candidate_runs counting_candidate test_vectors 0 = Some ([0; 1; 2], 3)
  /\ exists p : Z * Z,
      evaluate counting_candidate 0 = Some (p, 3)
      /\ evaluate (traced counting_candidate) (0, [])
         = Some (p, (3, [[]; short_test_vector; large_test_vector]))
      /\ map size [[]; short_test_vector; large_test_vector] = [0; 7; 100001].
Proof.
  split; [reflexivity|].
  apply (evaluate_invokes_candidate_once_per_case_in_order
           Z counting_candidate 0 3 [0; 1; 2]).
  reflexivity.
Defined.

(** ** Further properties of the oracle *)

Lemma wrap_int_add_l (x y : Z) : wrap_int (wrap_int x + y) = wrap_int (x + y).
Proof.
  unfold wrap_int.
  replace ((x - INT_MIN) mod modulus + INT_MIN + y - INT_MIN)
    with ((x - INT_MIN) mod modulus + y) by lia.
  rewrite Zplus_mod_idemp_l. f_equal. f_equal. lia.
Qed.

Lemma wrap_int_add_r (x y : Z) : wrap_int (x + wrap_int y) = wrap_int (x + y).
Proof. rewrite (Z.add_comm x), wrap_int_add_l. f_equal. lia. Qed.

(** Folding the wrapping addition is adding first and wrapping once. *)
Lemma fold_add_int_total (v : list Z) :
  forall a : Z, fold_left add_int v (wrap_int a) = wrap_int (a + total v).
Proof.
  induction v as [|x v IH]; intros a.
  - unfold total. cbn [fold_left fold_right]. f_equal. lia.
  - unfold total in *. cbn [fold_left fold_right]. unfold add_int at 2.
    rewrite wrap_int_add_l, IH. f_equal. lia.
Qed.

Lemma wrapping_sum_total (v : list Z) : wrapping_sum v = wrap_int (total v).
Proof.
  unfold wrapping_sum. change 0 with (wrap_int 0) at 1.
  rewrite fold_add_int_total. reflexivity.
Qed.

Lemma total_app (a b : list Z) : total (a ++ b) = total a + total b.
Proof.
  induction a as [|x a IH]; unfold total in *; cbn [app fold_right];
    [reflexivity | rewrite IH; lia].
Qed.

Lemma total_permutation (v w : list Z) : Permutation v w -> total v = total w.
Proof.
  unfold total.
  induction 1 as [|x v w _ IH|x y v|v w u _ IH1 _ IH2]; cbn [fold_right].
  - reflexivity.
  - rewrite IH. reflexivity.
  - lia.
  - congruence.
Qed.

(** X1.  The oracle returns exactly on the vectors an [unsigned int] counter
    can run through: those of at most [UINT_MAX] elements. *)
Theorem reference_solution_returns_iff_indexable :
  forall v : list Z,
    (exists r : Z, reference_solution v = Some r) <-> size v <= UINT_MAX.
Proof.
  intros v. split.
  - intros [r Hr]. destruct (Z_le_gt_dec (size v) UINT_MAX) as [Hs|Hl]; [exact Hs|].
    rewrite reference_solution_long in Hr by lia. discriminate Hr.
  - intros Hs. exists (wrapping_sum v). apply reference_solution_short, Hs.
Qed.

(** X2.  On a vector it can run through, the oracle returns the mathematical
    sum of the elements reduced to the range of [int]; the result is always a
    representable [int]. *)
Theorem reference_solution_is_sum_modulo :
  forall v : list Z,
    size v <= UINT_MAX ->
    reference_solution v = Some (wrap_int (total v))
    /\ in_int (wrap_int (total v))
    /\ (wrap_int (total v)) mod modulus = (total v) mod modulus.
Proof.
  intros v Hs. split; [|split].
  - rewrite reference_solution_short by exact Hs. f_equal. apply wrapping_sum_total.
  - apply wrap_int_range.
  - unfold wrap_int. rewrite Zplus_mod_idemp_l. f_equal. lia.
Qed.

Lemma reference_solution_is_sum_modulo_witness :
  size [2147483647; 1] <= UINT_MAX
  /\ reference_solution [2147483647; 1] = Some (wrap_int (total [2147483647; 1]))
  /\ in_int (wrap_int (total [2147483647; 1]))
  /\ (wrap_int (total [2147483647; 1])) mod modulus = (total [2147483647; 1]) mod modulus.
Proof.
  assert (Hs : size [2147483647; 1] <= UINT_MAX) by (vm_compute; discriminate).
  split; [exact Hs|].
  apply (reference_solution_is_sum_modulo [2147483647; 1] Hs).
Defined.

(** X3.  When the sum of the elements fits in an [int], the oracle returns
    exactly that sum, also when partial sums on the way overflow. *)
Theorem reference_solution_exact_when_sum_fits :
  forall v : list Z,
    size v <= UINT_MAX ->
    in_int (total v) ->
    reference_solution v = Some (total v).
Proof.
  intros v Hs Hfit.
  rewrite reference_solution_short by exact Hs.
  rewrite wrapping_sum_total, wrap_int_small by exact Hfit. reflexivity.
Qed.

Lemma reference_solution_exact_when_sum_fits_witness :
  size [2147483647; 1; -1] <= UINT_MAX
  /\ in_int (total [2147483647; 1; -1])
  /\ add_int 2147483647 1 = -2147483648
  /\ reference_solution [2147483647; 1; -1] = Some (total [2147483647; 1; -1]).
Proof.
  assert (Hs : size [2147483647; 1; -1] <= UINT_MAX) by (vm_compute; discriminate).
  assert (Hfit : in_int (total [2147483647; 1; -1]))
    by (split; vm_compute; discriminate).
  split; [exact Hs|]. split; [exact Hfit|]. split; [reflexivity|].
  apply (reference_solution_exact_when_sum_fits [2147483647; 1; -1] Hs Hfit).
Defined.

(** X4.  The oracle does not depend on the order of the elements: on two
    vectors that are permutations of each other it returns the same value,
    or returns on neither. *)
Theorem reference_solution_permutation :
  forall v w : list Z,
    Permutation v w -> reference_solution v = reference_solution w.
Proof.
  intros v w Hp.
  assert (Hsize : size v = size w)
    by (unfold size; now rewrite (Permutation_length Hp)).
  destruct (Z_le_gt_dec (size v) UINT_MAX) as [Hs|Hl].
  - rewrite (reference_solution_short v), (reference_solution_short w) by lia.
    rewrite !wrapping_sum_total, (total_permutation v w Hp). reflexivity.
  - rewrite (reference_solution_long v), (reference_solution_long w) by lia.
    reflexivity.
Qed.

Lemma reference_solution_permutation_witness :
  Permutation [2147483647; 1; -5] [-5; 2147483647; 1]
  /\ reference_solution [2147483647; 1; -5] = reference_solution [-5; 2147483647; 1].
Proof.
  assert (Hp : Permutation [2147483647; 1; -5] [-5; 2147483647; 1]).
  { apply Permutation_sym. apply (Permutation_cons_app [2147483647; 1] [] (-5)).
    apply Permutation_refl. }
  split; [exact Hp|].
  apply (reference_solution_permutation _ _ Hp).
Defined.

(** X5.  The oracle composes over concatenation: when it returns on the
    concatenation of two vectors, and so on each part, its value there is
    the wrapping sum of its values on the parts. *)
Theorem reference_solution_app :
  forall (a b : list Z) (ra rb : Z),
    size (a ++ b) <= UINT_MAX ->
    reference_solution a = Some ra ->
    reference_solution b = Some rb ->
    reference_solution (a ++ b) = Some (add_int ra rb).
Proof.
  intros a b ra rb Hs Ha Hb.
  apply reference_solution_sound in Ha. apply reference_solution_sound in Hb.
  subst ra rb.
  rewrite reference_solution_short by exact Hs.
  rewrite !wrapping_sum_total, total_app. unfold add_int.
  rewrite wrap_int_add_l, wrap_int_add_r. reflexivity.
Qed.

Lemma reference_solution_app_witness :
  size ([2147483647] ++ [1; 2]) <= UINT_MAX
  /\ reference_solution [2147483647] = Some 2147483647
  /\ reference_solution [1; 2] = Some 3
  /\ reference_solution ([2147483647] ++ [1; 2]) = Some (add_int 2147483647 3).
Proof.
  assert (Hs : size ([2147483647] ++ [1; 2]) <= UINT_MAX) by (vm_compute; discriminate).
  assert (Ha : reference_solution [2147483647] = Some 2147483647) by reflexivity.
  assert (Hb : reference_solution [1; 2] = Some 3) by reflexivity.
  split; [exact Hs|]. split; [exact Ha|]. split; [exact Hb|].
  apply (reference_solution_app [2147483647] [1; 2] _ _ Hs Ha Hb).
Defined.

(** ** The scoring loop over arbitrary tables *)

Lemma total_nonneg (values : list Z) :
  Forall (fun w => 0 <= w) values -> 0 <= total values.
Proof.
  unfold total. induction 1 as [|w values Hw _ IH]; cbn [fold_right]; lia.
Qed.

Lemma total_cons (w : Z) (values : list Z) : total (w :: values) = w + total values.
Proof. reflexivity. Qed.

Lemma matching_weights_bounds (values : list Z) :
  Forall (fun w => 0 <= w) values ->
  forall outs expected : list Z,
    0 <= total (matching_weights outs expected values) <= total values.
Proof.
  induction 1 as [|w values Hw Hall IH]; intros outs expected.
  - destruct outs, expected; cbn; lia.
  - pose proof (total_nonneg values Hall) as Hnn.
    destruct outs as [|o outs], expected as [|e expected];
      cbn [matching_weights]; rewrite ?total_cons;
      try (change (total []) with 0; lia).
    specialize (IH outs expected).
    destruct (o =? e); rewrite ?total_cons; lia.
Qed.

Lemma mul_int_pass (b : bool) (w : Z) :
  in_int w -> mul_int (int_of_bool b) w = if b then w else 0.
Proof.
  intros Hw. unfold mul_int, int_of_bool. destruct b.
  - rewrite Z.mul_1_l. apply wrap_int_small, Hw.
  - rewrite Z.mul_0_l. reflexivity.
Qed.

Section AnyTables.

Context {St : Type}.
Variable cand : candidate St.

(** The pass over the cases keeps both running totals exact as long as the
    weights are non-negative and their sum fits in an [int]. *)
Lemma score_cases_tables (vectors : list (list Z)) :
  forall (values : list Z) (score mx : Z) (s s' : St) (outs : list Z),
    length vectors = length values ->
    Forall (fun v => size v <= UINT_MAX) vectors ->
    Forall (fun w => 0 <= w) values ->
    0 <= score <= mx ->
    mx + total values <= INT_MAX ->
    candidate_runs cand vectors s = Some (outs, s') ->
    score_cases cand (combine vectors values) score mx s
    = Some ((score + total (matching_weights outs (map wrapping_sum vectors) values),
             mx + total values), s').
Proof.
  induction vectors as [|v vectors IH];
    intros values score mx s s' outs Hlen Hshort Hpos Hsc Hmx Hruns.
  - destruct values; [|discriminate Hlen].
    cbn [candidate_runs] in Hruns. injection Hruns as <- <-.
    cbn [combine score_cases map matching_weights].
    change (total []) with 0. rewrite !Z.add_0_r. reflexivity.
  - destruct values as [|w values]; [discriminate Hlen|].
    cbn [candidate_runs] in Hruns.
    destruct (cand v s) as [[o s1]|] eqn:Hc; [|discriminate Hruns].
    destruct (candidate_runs cand vectors s1) as [[outs' s2]|] eqn:Hr;
      [|discriminate Hruns].
    injection Hruns as <- <-.
    inversion Hshort as [|? ? Hv Hshort']; subst.
    inversion Hpos as [|? ? Hw Hpos']; subst.
    pose proof (total_nonneg values Hpos') as Hnn.
    rewrite total_cons in Hmx |- *.
    rewrite INT_MAX_val in Hmx.
    assert (Hin : forall z, 0 <= z <= mx + w -> in_int z).
    { intros z Hz. unfold in_int. rewrite INT_MIN_val, INT_MAX_val. lia. }
    cbn [combine score_cases map matching_weights].
    rewrite Hc, (reference_solution_short v Hv).
    rewrite mul_int_pass by (apply Hin; lia).
    rewrite (add_int_small mx w) by (apply Hin; lia).
    destruct (o =? wrapping_sum v).
    + rewrite add_int_small by (apply Hin; lia).
      rewrite (IH values (score + w) (mx + w) s1 s2 outs');
        [|cbn [length] in Hlen; lia|assumption|assumption|lia
         |rewrite INT_MAX_val; lia|exact Hr].
      rewrite total_cons. do 2 f_equal. f_equal; lia.
    + rewrite add_int_small by (rewrite Z.add_0_r; apply Hin; lia).
      rewrite Z.add_0_r.
      rewrite (IH values score (mx + w) s1 s2 outs');
        [|cbn [length] in Hlen; lia|assumption|assumption|lia
         |rewrite INT_MAX_val; lia|exact Hr].
      do 2 f_equal. f_equal; lia.
Qed.

End AnyTables.

(** X11.  The scoring loop is right for every table of test cases, not only
    for the three of [evaluate]: given as many weights as vectors, at most
    [UINT_MAX] of them, vectors the oracle returns on, and non-negative
    weights whose sum fits in an [int], it returns the sum of all weights as
    the maximum, the sum of the weights of the matching cases as the score,
    and the score lies between 0 and the maximum. *)
Theorem evaluate_loop_any_tables :
  forall (St : Type) (cand : candidate St) (vectors : list (list Z))
         (values : list Z) (s s' : St) (outs : list Z),
    length vectors = length values ->
    size vectors <= UINT_MAX ->
    Forall (fun v => size v <= UINT_MAX) vectors ->
    Forall (fun w => 0 <= w) values ->
    total values <= INT_MAX ->
    candidate_runs cand vectors s = Some (outs, s') ->
    evaluate_loop cand (S (length vectors)) vectors values 0 0 0 s
    = Some ((total (matching_weights outs (map wrapping_sum vectors) values),
             total values), s')
    /\ 0 <= total (matching_weights outs (map wrapping_sum vectors) values)
       <= total values.
Proof.
  intros St cand vectors values s s' outs Hlen Hsize Hshort Hpos Hfit Hruns.
  split; [|apply matching_weights_bounds, Hpos].
  pose proof (evaluate_loop_suffix cand vectors values [] [] 0 0 s
                (S (length vectors)) eq_refl Hlen Hsize (Nat.lt_succ_diag_r _)) as E.
  etransitivity; [exact E|].
  rewrite (score_cases_tables cand vectors values 0 0 s s' outs)
    by (try assumption; lia).
  reflexivity.
Qed.

Lemma evaluate_loop_any_tables_witness :
  evaluate_loop (constant_candidate 3) (S (length [[1; 2]; [4]; []]))
    [[1; 2]; [4]; []] [5; 7; 0] 0 0 0 tt
  = Some ((total (matching_weights [3; 3; 3]
                    (map wrapping_sum [[1; 2]; [4]; []]) [5; 7; 0]),
           total [5; 7; 0]), tt)
  /\ 0 <= total (matching_weights [3; 3; 3]
                   (map wrapping_sum [[1; 2]; [4]; []]) [5; 7; 0])
     <= total [5; 7; 0].
Proof.
  apply (evaluate_loop_any_tables unit (constant_candidate 3)
           [[1; 2]; [4]; []] [5; 7; 0] tt tt [3; 3; 3]).
  - reflexivity.
  - vm_compute. discriminate.
  - repeat constructor; vm_compute; discriminate.
  - repeat constructor; vm_compute; discriminate.
  - vm_compute. discriminate.
  - reflexivity.
Defined.

(** ** Further properties of [evaluate] *)

(** The pass pattern of three outputs, and the score [evaluate] gives it. *)
Lemma evaluate_score_of_passes {St : Type} (cand : candidate St)
    (s s' : St) (outs : list Z) :
  candidate_runs cand test_vectors s = Some (outs, s') ->
  exists b1 b2 b3 : bool,
    passes outs = [b1; b2; b3]
    /\ evaluate cand s
       = Some (((if b1 then 10 else 0) + (if b2 then 30 else 0)
                + (if b3 then 60 else 0), 100), s').
Proof.
  intros H. destruct (evaluate_of_runs cand s s' outs H) as (o1 & o2 & o3 & Houts & Hev).
  exists (o1 =? 0), (o2 =? 2), (o3 =? -6954321). split; [|exact Hev].
  subst outs. unfold passes. rewrite test_vectors_eq.
  cbn [combine map fst snd]. unfold answer_matches.
  rewrite reference_empty, reference_short, reference_large. reflexivity.
Qed.

(** X6.  [evaluate] fails to return exactly when one of the three
    invocations of the candidate does: a candidate that does not return
    takes the whole evaluation with it, and nothing else does. *)
Theorem evaluate_fails_iff_candidate_fails :
  forall (St : Type) (cand : candidate St) (s : St),
    evaluate cand s = None <-> candidate_runs cand test_vectors s = None.
Proof.
  intros St cand s. split.
  - intros Hev. destruct (candidate_runs cand test_vectors s) as [[outs s']|] eqn:Hr;
      [|reflexivity].
    destruct (evaluate_of_runs cand s s' outs Hr) as (o1 & o2 & o3 & _ & Hsome).
    rewrite Hsome in Hev. discriminate Hev.
  - apply evaluate_none_of_runs.
Qed.

(** X7.  Full marks are given only for three right answers: the returned
    pair is (100, 100) exactly when each of the three outputs of the
    candidate equals the output of the oracle on the same test vector. *)
Theorem evaluate_full_score_iff_all_match :
  forall (St : Type) (cand : candidate St) (s s' : St) (outs : list Z),
    candidate_runs cand test_vectors s = Some (outs, s') ->
    (evaluate cand s = Some ((100, 100), s')
     <-> map Some outs = map reference_solution test_vectors).
Proof.
  intros St cand s s' outs H.
  destruct (evaluate_of_runs cand s s' outs H) as (o1 & o2 & o3 & Houts & Hev).
  subst outs. rewrite Hev, oracle_on_test_vectors. cbn [map]. split.
  - intros E. injection E as E.
    destruct (Z.eqb_spec o1 0), (Z.eqb_spec o2 2), (Z.eqb_spec o3 (-6954321));
      try discriminate E.
    subst. reflexivity.
  - intros E. injection E as -> -> ->. reflexivity.
Qed.

Lemma evaluate_full_score_iff_all_match_witness :
  candidate_runs counting_candidate test_vectors 0 = Some ([0; 1; 2], 3)
  /\ (evaluate counting_candidate 0 = Some ((100, 100), 3)
      <-> map Some [0; 1; 2] = map reference_solution test_vectors).
Proof.
  split; [reflexivity|].
  apply (evaluate_full_score_iff_all_match Z counting_candidate 0 3 [0; 1; 2]).
  reflexivity.
Defined.

(** X8.  A candidate none of whose answers on the test vectors is the
    oracle's scores exactly 0, out of 100. *)
Theorem evaluate_zero_score_when_nothing_matches :
  forall (St : Type) (cand : candidate St),
    (forall (v : list Z) (s s' : St) (o : Z),
        In v test_vectors -> cand v s = Some (o, s') -> reference_solution v <> Some o) ->
    forall (s s' : St) (outs : list Z),
      candidate_runs cand test_vectors s = Some (outs, s') ->
      evaluate cand s = Some ((0, 100), s').
Proof.
  intros St cand Hwrong s s' outs H.
  destruct (candidate_runs_three cand s s' outs H)
    as (o1 & o2 & o3 & s1 & s2 & _ & H1 & H2 & H3).
  rewrite (evaluate_three cand s s1 s2 s' o1 o2 o3 H1 H2 H3).
  assert (Hin : forall v, In v [[]; short_test_vector; large_test_vector] ->
                          In v test_vectors)
    by (intros v Hv; rewrite test_vectors_eq; exact Hv).
  assert (N1 : o1 <> 0).
  { intros ->. apply (Hwrong [] s s1 0); [apply Hin; cbn; tauto|exact H1|].
    exact reference_empty. }
  assert (N2 : o2 <> 2).
  { intros ->. apply (Hwrong short_test_vector s1 s2 2);
      [apply Hin; cbn; tauto|exact H2|]. exact reference_short. }
  assert (N3 : o3 <> -6954321).
  { intros ->. apply (Hwrong large_test_vector s2 s' (-6954321));
      [apply Hin; cbn; tauto|exact H3|]. exact reference_large. }
  apply Z.eqb_neq in N1, N2, N3. rewrite N1, N2, N3. reflexivity.
Qed.

Lemma evaluate_zero_score_when_nothing_matches_witness :
  evaluate (constant_candidate 1) tt = Some ((0, 100), tt).
Proof.
  apply (evaluate_zero_score_when_nothing_matches unit (constant_candidate 1))
    with (outs := [1; 1; 1]).
  - intros v s s' o Hin Hc. injection Hc as <- _.
    rewrite test_vectors_eq in Hin.
    destruct Hin as [<-|[<-|[<-|[]]]].
    + rewrite reference_empty. discriminate.
    + rewrite reference_short. discriminate.
    + rewrite reference_large. discriminate.
  - reflexivity.
Defined.

(** X9.  The score tells which test cases were passed: two evaluations
    return the same score exactly when the two candidates passed the same
    test cases. *)
Theorem evaluate_same_score_iff_same_passes :
  forall (St St' : Type) (cand : candidate St) (cand' : candidate St')
         (s s' : St) (t t' : St') (outs outs' : list Z),
    candidate_runs cand test_vectors s = Some (outs, s') ->
    candidate_runs cand' test_vectors t = Some (outs', t') ->
    exists score score' : Z,
      evaluate cand s = Some ((score, 100), s')
      /\ evaluate cand' t = Some ((score', 100), t')
      /\ (score = score' <-> passes outs = passes outs').
Proof.
  intros St St' cand cand' s s' t t' outs outs' H H'.
  destruct (evaluate_score_of_passes cand s s' outs H) as (b1 & b2 & b3 & Hp & Hev).
  destruct (evaluate_score_of_passes cand' t t' outs' H') as (c1 & c2 & c3 & Hp' & Hev').
  do 2 eexists. split; [exact Hev|]. split; [exact Hev'|].
  rewrite Hp, Hp'. split.
  - destruct b1, b2, b3, c1, c2, c3; intros E; try reflexivity; discriminate E.
  - intros E. injection E as -> -> ->. reflexivity.
Qed.

Lemma evaluate_same_score_iff_same_passes_witness :
  candidate_runs solution_func test_vectors tt = Some ([0; 0; 0], tt)
  /\ candidate_runs counting_candidate test_vectors 0 = Some ([0; 1; 2], 3)
  /\ exists score score' : Z,
      evaluate solution_func tt = Some ((score, 100), tt)
      /\ evaluate counting_candidate 0 = Some ((score', 100), 3)
      /\ (score = score' <-> passes [0; 0; 0] = passes [0; 1; 2]).
Proof.
  split; [reflexivity|]. split; [reflexivity|].
  apply (evaluate_same_score_iff_same_passes unit Z solution_func counting_candidate
           tt tt 0 3 [0; 0; 0] [0; 1; 2]); reflexivity.
Defined.

(** X10.  [evaluate] looks at the candidate on its three test vectors only:
    two candidates that behave alike on these are evaluated alike, whatever
    they do on other inputs. *)
Theorem evaluate_depends_on_test_vectors_only :
  forall (St : Type) (cand cand' : candidate St),
    (forall (v : list Z) (s : St), In v test_vectors -> cand v s = cand' v s) ->
    forall s : St, evaluate cand s = evaluate cand' s.
Proof.
  intros St cand cand' Hsame s.
  rewrite !evaluate_as_cases. cbn [score_cases].
  assert (Hin : forall v, In v [[]; short_test_vector; large_test_vector] ->
                          In v test_vectors)
    by (intros v Hv; rewrite test_vectors_eq; exact Hv).
  rewrite <- (Hsame [] s) by (apply Hin; cbn; tauto).
  destruct (cand [] s) as [[o1 s1]|]; [|reflexivity].
  destruct (reference_solution []); [|reflexivity].
  rewrite <- (Hsame short_test_vector s1) by (apply Hin; cbn; tauto).
  destruct (cand short_test_vector s1) as [[o2 s2]|]; [|reflexivity].
  destruct (reference_solution short_test_vector); [|reflexivity].
  rewrite <- (Hsame large_test_vector s2) by (apply Hin; cbn; tauto).
  reflexivity.
Qed.

Lemma evaluate_depends_on_test_vectors_only_witness :
  solution_func [42] tt <> picky_candidate [42] tt
  /\ forall s : unit, evaluate solution_func s = evaluate picky_candidate s.
Proof.
  split; [discriminate|].
  apply (evaluate_depends_on_test_vectors_only unit solution_func picky_candidate).
  intros v s Hin. rewrite test_vectors_eq in Hin.
  destruct Hin as [<-|[<-|[<-|[]]]]; reflexivity.
Defined.

(** ** The entry point *)

(** What the program prints and returns as it stands, linked with the
    sample submission. *)
Lemma main_output :
  main
  = (String.append "Evaluating candidate's solution function..."%string
       (String.append endl
          (String.append "Candidate's score: 10/100"%string endl)),
     Some (0, tt)).
Proof.
  unfold main, platform_main.
  rewrite (evaluate_three solution_func tt tt tt tt 0 0 0 eq_refl eq_refl eq_refl).
  vm_compute. reflexivity.
Qed.



(** X13.  When an invocation of the submission does not return, [main] has
    written the banner line and nothing else, and has no exit status. *)
Theorem platform_main_stops_after_banner :
  forall (St : Type) (submission : candidate St) (s : St),
    candidate_runs submission test_vectors s = None ->
    platform_main submission s = (banner, None).
Proof.
  intros St submission s H.
  unfold platform_main. rewrite (evaluate_none_of_runs submission s H). reflexivity.
Qed.

Lemma platform_main_stops_after_banner_witness :
  candidate_runs stuck_candidate test_vectors tt = None
  /\ platform_main stuck_candidate tt = (banner, None).
Proof.
  split; [reflexivity|].
  apply (platform_main_stops_after_banner unit stuck_candidate tt).
  reflexivity.
Defined.

(** ** The oracle on vectors built like the large test vector *)

Lemma total_repeat (x : Z) (k : nat) : total (repeat x k) = Z.of_nat k * x.
Proof.
  unfold total. induction k as [|k IH]; [reflexivity|].
  cbn [repeat fold_right]. rewrite IH. lia.
Qed.

Lemma total_filled (n x : Z) : 0 <= n -> total (filled n x) = n * x.
Proof. intros H. unfold filled. rewrite total_repeat, Z2Nat.id by exact H. reflexivity. Qed.

(** X14.  On a vector of [n] copies of [x] followed by one more element
    [y], built the way [evaluate] builds its large test vector, the oracle
    returns [n * x + y] reduced to the range of [int]. *)
Theorem reference_solution_filled_push_back :
  forall n x y : Z,
    0 <= n < UINT_MAX ->
    reference_solution (push_back (filled n x) y) = Some (wrap_int (n * x + y)).
Proof.
  intros n x y Hn. unfold push_back.
  rewrite reference_solution_short
    by (rewrite size_app, size_filled by lia; change (size [y]) with 1; lia).
  rewrite wrapping_sum_total, total_app, total_filled by lia.
  do 2 f_equal. unfold total. cbn [fold_right]. lia.
Qed.

Lemma reference_solution_filled_push_back_witness :
  0 <= 100000 < UINT_MAX
  /\ reference_solution (push_back (filled 100000 7) (-7654321))
     = Some (wrap_int (100000 * 7 + -7654321)).
Proof.
  assert (Hn : 0 <= 100000 < UINT_MAX) by (rewrite UINT_MAX_val; lia).
  split; [exact Hn|].
  apply (reference_solution_filled_push_back 100000 7 (-7654321) Hn).
Defined.
